(** * ARM Cortex-M System Control Block: fault-status decoding and clearing

    A shallow embedding of [include/arch/arm/cortex_m/scb.h] (the ARMv7-M
    branch).  Every routine of the header is one load or one store on the
    memory-mapped register block [__scs.scb]; the routines are embedded as
    computations in a state monad over that block, and the block answers
    loads and stores the way the header's comments describe the hardware:
    HFSR, MMFSR, BFSR and UFSR are write-one-to-clear. *)

From Stdlib Require Import ZArith Lia Bool List.
From ExtLib Require Import Structures.Monad Structures.MonadState.
From ExtLib Require Import Data.Monads.StateMonad.
Import ListNotations.
Import MonadNotation.
Local Open Scope Z_scope.
Local Open Scope monad_scope.

(** ** C integer helpers *)

(** [!!x] of C: 0 stays 0, everything else becomes 1. *)
Definition c_notnot (x : Z) : Z := if x =? 0 then 0 else 1.

(** Value of [w] low bits of [x] (conversion to an unsigned [w]-bit type). *)
Definition trunc (w x : Z) : Z := Z.land x (Z.ones w).

(** Read of a bit-field of [len] bits at bit [pos] of its storage unit. *)
Definition bf_get (pos len v : Z) : Z := Z.land (Z.shiftr v pos) (Z.ones len).

(** Storage unit after assigning [x] to the bit-field at [pos] of [len] bits:
    the other bits of the unit keep the value that was loaded. *)
Definition bf_set (pos len v x : Z) : Z :=
  Z.lor (Z.land v (Z.lnot (Z.shiftl (Z.ones len) pos)))
        (Z.shiftl (Z.land x (Z.ones len)) pos).

(** ** The register block *)

Module Scs.

(** Modelled from the spec: the part of [struct __scs.scb] (scs.h, not part
    of the sources) that scb.h touches: the hard-fault status register, the
    composite configurable-fault status register and the two fault-address
    registers (spec, section 6).  [cfsr] is one 32-bit word; MMFSR, BFSR and
    UFSR are its byte 0, its byte 1 and its upper half-word (members
    [cfsr.byte.mmfsr], [cfsr.byte.bfsr], [cfsr.byte.ufsr]). *)
Record scb : Type := mk_scb {
  hfsr  : Z;
  cfsr  : Z;
  mmfar : Z;
  bfar  : Z
}.

(** The storage units that scb.h loads from and stores to, by the path it
    uses for each. *)
Inductive reg : Type :=
| HFSR    (* __scs.scb.hfsr.val            : uint32_t *)
| MMFSR   (* __scs.scb.cfsr.byte.mmfsr.val : uint8_t  *)
| BFSR    (* __scs.scb.cfsr.byte.bfsr.val  : uint8_t  *)
| UFSR    (* __scs.scb.cfsr.byte.ufsr.val  : uint16_t *)
| MMFAR   (* __scs.scb.mmfar               : uint32_t *)
| BFAR.   (* __scs.scb.bfar                : uint32_t *)

Definition reg_eqb (a b : reg) : bool :=
  match a, b with
  | HFSR, HFSR | MMFSR, MMFSR | BFSR, BFSR
  | UFSR, UFSR | MMFAR, MMFAR | BFAR, BFAR => true
  | _, _ => false
  end.

(** Modelled from the spec: width in bits of each storage unit, as scs.h
    declares their [val] members (spec, section 9: byte and half-word
    sub-registers of one composite word; section 3: 32-bit addresses). *)
Definition width (r : reg) : Z :=
  match r with
  | HFSR => 32 | MMFSR => 8 | BFSR => 8 | UFSR => 16 | MMFAR => 32 | BFAR => 32
  end.

(** Modelled from the spec: bit offset of the unit inside the 32-bit
    register that holds it (little-endian layout of [union __cfsr]). *)
Definition lane (r : reg) : Z :=
  match r with
  | BFSR => 8 | UFSR => 16 | _ => 0
  end.

(** Modelled from the spec: the hardware's answer to a load.  The register
    block itself (scs.h and the silicon behind it) is not part of the
    sources; the spec (sections 3 and 9) has reads of the status registers
    pure and the three sub-registers packed in one backing word.
    [word_of] is the 32-bit register that holds the unit. *)
Definition word_of (r : reg) (s : scb) : Z :=
  match r with
  | HFSR => hfsr s
  | MMFSR | BFSR | UFSR => cfsr s
  | MMFAR => mmfar s
  | BFAR => bfar s
  end.

(** A load returns the unit's own bits of that register. *)
Definition read_reg (r : reg) (s : scb) : Z :=
  trunc (width r) (Z.shiftr (word_of r s) (lane r)).

(** Write-one-to-clear: every bit written as 1 is cleared, every bit
    written as 0 keeps its value. *)
Definition w1c (old written : Z) : Z := Z.land old (Z.lnot written).

(** Modelled from the spec: the hardware's answer to a store of [v] to the
    unit [r].  scb.h states it for each status register ("HFSR register is
    a 'write-one-to-clear' (W1C) register", likewise CFSR/MMFSR, CFSR/BFSR
    and CFSR/UFSR) and the spec's glossary defines it: writing 1 to a bit
    clears it, writing 0 has no effect.  A store to a sub-register of CFSR
    drives only that sub-register's byte lanes ([driven] is the value on
    the lanes of the 32-bit register).  The two address registers are
    ordinary read/write words. *)
Definition write_reg (r : reg) (v : Z) (s : scb) : scb :=
  let driven := Z.shiftl (trunc (width r) v) (lane r) in
  match r with
  | HFSR  => mk_scb (w1c (hfsr s) driven) (cfsr s) (mmfar s) (bfar s)
  | MMFSR | BFSR | UFSR =>
             mk_scb (hfsr s) (w1c (cfsr s) driven) (mmfar s) (bfar s)
  | MMFAR => mk_scb (hfsr s) (cfsr s) driven (bfar s)
  | BFAR  => mk_scb (hfsr s) (cfsr s) (mmfar s) driven
  end.

(** A register block as the hardware presents it: four 32-bit words. *)
Definition word32 (x : Z) : Prop := 0 <= x < 2 ^ 32.

Definition wf (s : scb) : Prop :=
  word32 (hfsr s) /\ word32 (cfsr s) /\ word32 (mmfar s) /\ word32 (bfar s).

(** A bit-field of a storage unit: [bit.<name>] in scs.h. *)
Record field : Type := mk_field {
  f_reg : reg;
  f_pos : Z;
  f_len : Z
}.

(** Modelled from the spec: the bit-field declarations of scs.h, which scb.h
    names but which are not part of the sources.  The spec (section 6) binds
    the layout bit-exactly to the architecture reference manual of the
    target core; these are the ARMv7-M positions. *)
Definition hfsr_vecttbl      := mk_field HFSR 1 1.
Definition hfsr_forced       := mk_field HFSR 30 1.
Definition hfsr_debugevt     := mk_field HFSR 31 1.

Definition mmfsr_iaccviol    := mk_field MMFSR 0 1.
Definition mmfsr_daccviol    := mk_field MMFSR 1 1.
Definition mmfsr_munstkerr   := mk_field MMFSR 3 1.
Definition mmfsr_mstkerr     := mk_field MMFSR 4 1.
Definition mmfsr_mmarvalid   := mk_field MMFSR 7 1.

Definition bfsr_ibuserr      := mk_field BFSR 0 1.
Definition bfsr_preciserr    := mk_field BFSR 1 1.
Definition bfsr_impreciserr  := mk_field BFSR 2 1.
Definition bfsr_unstkerr     := mk_field BFSR 3 1.
Definition bfsr_stkerr       := mk_field BFSR 4 1.
Definition bfsr_bfarvalid    := mk_field BFSR 7 1.

Definition ufsr_undefinstr   := mk_field UFSR 0 1.
Definition ufsr_invstate     := mk_field UFSR 1 1.
Definition ufsr_invpc        := mk_field UFSR 2 1.
Definition ufsr_nocp         := mk_field UFSR 3 1.
Definition ufsr_unaligned    := mk_field UFSR 8 1.
Definition ufsr_divbyzero    := mk_field UFSR 9 1.

End Scs.
Import Scs.

(** ** Accesses to the block, as computations *)

Definition Mmio := state scb.

(** [... = __scs.scb.<r>.val] *)
Definition load (r : reg) : Mmio Z :=
  s <- get ;; ret (read_reg r s).

(** [__scs.scb.<r>.val = v]; the assignment expression has the value stored. *)
Definition store (r : reg) (v : Z) : Mmio Z :=
  s <- get ;; put (write_reg r v s) ;; ret (trunc (width r) v).

(** [... = __scs.scb.<r>.bit.<f>] *)
Definition load_field (f : field) : Mmio Z :=
  v <- load (f_reg f) ;; ret (bf_get (f_pos f) (f_len f) v).

(** [__scs.scb.<r>.bit.<f> = x]: a bit-field has no address of its own, so the
    assignment loads the storage unit, replaces the field and stores the
    unit back. *)
Definition store_field (f : field) (x : Z) : Mmio unit :=
  v <- load (f_reg f) ;;
  _ <- store (f_reg f) (bf_set (f_pos f) (f_len f) v x) ;;
  ret tt.

(** Result and final block of a computation, from a starting block. *)
Definition result {A} (c : Mmio A) (s : scb) : A := fst (runState c s).
Definition after  {A} (c : Mmio A) (s : scb) : scb := snd (runState c s).

(** ** scb.h, ARMv7-M branch *)

(** *** Hard faults (HFSR) *)

Definition _ScbHardFaultIsBusErrOnVectorRead : Mmio Z :=
  load_field hfsr_vecttbl.

Definition _ScbHardFaultAllFaultsReset : Mmio Z :=
  store HFSR 0xffff.

(** *** MPU faults (MMFSR, MMFAR) *)

Definition _ScbIsMemFault : Mmio Z :=
  v <- load MMFSR ;; ret (c_notnot v).

Definition _ScbMemFaultIsMmfarValid : Mmio Z :=
  v <- load_field mmfsr_mmarvalid ;; ret (c_notnot v).

Definition _ScbMemFaultMmfarReset : Mmio unit :=
  store_field mmfsr_mmarvalid 0.

Definition _ScbMemFaultAllFaultsReset : Mmio unit :=
  _ <- store MMFSR 0xfe ;; ret tt.

Definition _ScbMemFaultIsStacking : Mmio Z :=
  v <- load_field mmfsr_mstkerr ;; ret (c_notnot v).

Definition _ScbMemFaultIsUnstacking : Mmio Z :=
  v <- load_field mmfsr_munstkerr ;; ret (c_notnot v).

Definition _ScbMemFaultIsDataAccessViolation : Mmio Z :=
  v <- load_field mmfsr_daccviol ;; ret (c_notnot v).

Definition _ScbMemFaultIsInstrAccessViolation : Mmio Z :=
  v <- load_field mmfsr_iaccviol ;; ret (c_notnot v).

Definition _ScbMemFaultAddrGet : Mmio Z :=
  load MMFAR.

(** *** Bus faults (BFSR, BFAR) *)

Definition _ScbIsBusFault : Mmio Z :=
  v <- load BFSR ;; ret (c_notnot v).

Definition _ScbBusFaultIsBfarValid : Mmio Z :=
  v <- load_field bfsr_bfarvalid ;; ret (c_notnot v).

Definition _ScbBusFaultBfarReset : Mmio unit :=
  store_field bfsr_bfarvalid 0.

Definition _ScbBusFaultAllFaultsReset : Mmio unit :=
  _ <- store BFSR 0xfe ;; ret tt.

Definition _ScbBusFaultIsStacking : Mmio Z :=
  v <- load_field bfsr_stkerr ;; ret (c_notnot v).

Definition _ScbBusFaultIsUnstacking : Mmio Z :=
  v <- load_field bfsr_unstkerr ;; ret (c_notnot v).

Definition _ScbBusFaultIsImprecise : Mmio Z :=
  v <- load_field bfsr_impreciserr ;; ret (c_notnot v).

Definition _ScbBusFaultIsPrecise : Mmio Z :=
  v <- load_field bfsr_preciserr ;; ret (c_notnot v).

Definition _ScbBusFaultIsInstrBusErr : Mmio Z :=
  v <- load_field bfsr_ibuserr ;; ret (c_notnot v).

Definition _ScbBusFaultAddrGet : Mmio Z :=
  load BFAR.

(** *** Usage faults (UFSR) *)

Definition _ScbIsUsageFault : Mmio Z :=
  v <- load UFSR ;; ret (c_notnot v).

Definition _ScbUsageFaultIsDivByZero : Mmio Z :=
  v <- load_field ufsr_divbyzero ;; ret (c_notnot v).

Definition _ScbUsageFaultIsUnaligned : Mmio Z :=
  v <- load_field ufsr_unaligned ;; ret (c_notnot v).

Definition _ScbUsageFaultIsNoCp : Mmio Z :=
  v <- load_field ufsr_nocp ;; ret (c_notnot v).

Definition _ScbUsageFaultIsInvalidPcLoad : Mmio Z :=
  v <- load_field ufsr_invpc ;; ret (c_notnot v).

Definition _ScbUsageFaultIsInvalidState : Mmio Z :=
  v <- load_field ufsr_invstate ;; ret (c_notnot v).

Definition _ScbUsageFaultIsUndefinedInstr : Mmio Z :=
  v <- load_field ufsr_undefinstr ;; ret (c_notnot v).

Definition _ScbUsageFaultAllFaultsReset : Mmio unit :=
  _ <- store UFSR 0xffff ;; ret tt.

(** ** The views and their predicates *)

Inductive view : Type := Hard | Mem | Bus | Usage.

(** The flags that scb.h decodes, one per single-bit predicate. *)
Inductive flag : Type :=
| Vecttbl
| Mstkerr | Munstkerr | Daccviol | Iaccviol | Mmarvalid
| Stkerr | Unstkerr | Impreciserr | Preciserr | Ibuserr | Bfarvalid
| Divbyzero | Unaligned | Nocp | Invpc | Invstate | Undefinstr.

Definition view_of (f : flag) : view :=
  match f with
  | Vecttbl => Hard
  | Mstkerr | Munstkerr | Daccviol | Iaccviol | Mmarvalid => Mem
  | Stkerr | Unstkerr | Impreciserr | Preciserr | Ibuserr | Bfarvalid => Bus
  | Divbyzero | Unaligned | Nocp | Invpc | Invstate | Undefinstr => Usage
  end.

Definition field_of (f : flag) : field :=
  match f with
  | Vecttbl => hfsr_vecttbl
  | Mstkerr => mmfsr_mstkerr
  | Munstkerr => mmfsr_munstkerr
  | Daccviol => mmfsr_daccviol
  | Iaccviol => mmfsr_iaccviol
  | Mmarvalid => mmfsr_mmarvalid
  | Stkerr => bfsr_stkerr
  | Unstkerr => bfsr_unstkerr
  | Impreciserr => bfsr_impreciserr
  | Preciserr => bfsr_preciserr
  | Ibuserr => bfsr_ibuserr
  | Bfarvalid => bfsr_bfarvalid
  | Divbyzero => ufsr_divbyzero
  | Unaligned => ufsr_unaligned
  | Nocp => ufsr_nocp
  | Invpc => ufsr_invpc
  | Invstate => ufsr_invstate
  | Undefinstr => ufsr_undefinstr
  end.

(** The routine of scb.h that reads the flag. *)
Definition predicate (f : flag) : Mmio Z :=
  match f with
  | Vecttbl => _ScbHardFaultIsBusErrOnVectorRead
  | Mstkerr => _ScbMemFaultIsStacking
  | Munstkerr => _ScbMemFaultIsUnstacking
  | Daccviol => _ScbMemFaultIsDataAccessViolation
  | Iaccviol => _ScbMemFaultIsInstrAccessViolation
  | Mmarvalid => _ScbMemFaultIsMmfarValid
  | Stkerr => _ScbBusFaultIsStacking
  | Unstkerr => _ScbBusFaultIsUnstacking
  | Impreciserr => _ScbBusFaultIsImprecise
  | Preciserr => _ScbBusFaultIsPrecise
  | Ibuserr => _ScbBusFaultIsInstrBusErr
  | Bfarvalid => _ScbBusFaultIsBfarValid
  | Divbyzero => _ScbUsageFaultIsDivByZero
  | Unaligned => _ScbUsageFaultIsUnaligned
  | Nocp => _ScbUsageFaultIsNoCp
  | Invpc => _ScbUsageFaultIsInvalidPcLoad
  | Invstate => _ScbUsageFaultIsInvalidState
  | Undefinstr => _ScbUsageFaultIsUndefinedInstr
  end.

(** The view-wide clear of each view. *)
Definition reset_all (v : view) : Mmio unit :=
  match v with
  | Hard => _ <- _ScbHardFaultAllFaultsReset ;; ret tt
  | Mem => _ScbMemFaultAllFaultsReset
  | Bus => _ScbBusFaultAllFaultsReset
  | Usage => _ScbUsageFaultAllFaultsReset
  end.

(** Every routine of scb.h that only reads. *)
Inductive reader : Type :=
| RFlag (f : flag)
| RIsMemFault | RIsBusFault | RIsUsageFault
| RMemFaultAddr | RBusFaultAddr.

Definition read_routine (r : reader) : Mmio Z :=
  match r with
  | RFlag f => predicate f
  | RIsMemFault => _ScbIsMemFault
  | RIsBusFault => _ScbIsBusFault
  | RIsUsageFault => _ScbIsUsageFault
  | RMemFaultAddr => _ScbMemFaultAddrGet
  | RBusFaultAddr => _ScbBusFaultAddrGet
  end.

(** Position of a field's bit in the 32-bit register that holds it, and the
    bit itself. *)
Definition abs_pos (f : field) : Z := f_pos f + lane (f_reg f).

Definition bit_of (f : field) (s : scb) : bool :=
  Z.testbit (word_of (f_reg f) s) (abs_pos f).

(** [x] and [y] have the same bits everywhere except possibly bit [k]. *)
Definition same_except_bit (k x y : Z) : bool :=
  Z.ldiff (Z.lxor x y) (Z.shiftl 1 k) =? 0.

(** Two blocks that differ at most in the bit of flag [f]. *)
Definition differ_only_in (f : flag) (s1 s2 : scb) : bool :=
  let fd := field_of f in
  match f_reg fd with
  | HFSR =>
      same_except_bit (abs_pos fd) (hfsr s1) (hfsr s2) && (cfsr s1 =? cfsr s2)
  | _ =>
      (hfsr s1 =? hfsr s2) && same_except_bit (abs_pos fd) (cfsr s1) (cfsr s2)
  end
  && (mmfar s1 =? mmfar s2) && (bfar s1 =? bfar s2).

(** The bits of UFSR that no predicate of the usage view reads: 4..7 and
    10..15. *)
Definition ufsr_undecoded : Z := 0xfcf0.

(** Modelled from the spec: the bits 4..7 and 10..15 of UFSR are reserved in
    the ARMv7-M layout that scs.h declares (spec, section 6; scb.h compiles
    this code under CONFIG_ARMV7_M only), and the core presents reserved
    bits as zero.  [ufsr_reserved_zero s] says that the block [s] is one the
    core presents in that respect. *)
Definition ufsr_reserved_zero (s : scb) : bool :=
  Z.land (read_reg UFSR s) ufsr_undecoded =? 0.

(** ** Placement of fields and the masks of the clears *)

(** A single-bit field that lies inside its storage unit. *)
Definition well_placed (f : field) : Prop :=
  f_len f = 1 /\ 0 <= f_pos f < width (f_reg f).

(** The write-one-to-clear registers. *)
Definition is_status (r : reg) : bool :=
  match r with
  | HFSR | MMFSR | BFSR | UFSR => true
  | MMFAR | BFAR => false
  end.

(** Register and mask of each view-wide clear, as scb.h writes them. *)
Definition status_reg (v : view) : reg :=
  match v with
  | Hard => HFSR | Mem => MMFSR | Bus => BFSR | Usage => UFSR
  end.

Definition reset_mask (v : view) : Z :=
  match v with
  | Hard => 0xffff | Mem => 0xfe | Bus => 0xfe | Usage => 0xffff
  end.

(** Whether the view-wide clear of the flag's view writes a 1 to the flag. *)
Definition covered_by_reset (f : flag) : bool :=
  Z.testbit (reset_mask (view_of f)) (f_pos (field_of f)).

(** Mask of a field inside its storage unit. *)
Definition field_mask (f : field) : Z := Z.shiftl (Z.ones (f_len f)) (f_pos f).

(** The six decoded bits of UFSR: 0..3, 8 and 9. *)
Definition ufsr_decoded : Z := 0x030f.

(** ** Register blocks of the scenarios *)

(** The memory-fault block of the scenario: MMFSR = 0x90, MMFAR = 0x20001000. *)
Definition mem_stacking_block : scb := mk_scb 0 0x00000090 0x20001000 0.

(** The bus-fault block of the scenario: BFSR = 0x04. *)
Definition bus_imprecise_block : scb := mk_scb 0 0x00000400 0 0.

(** The usage-fault block with UFSR = 0x0201: divide-by-zero (bit 9) and
    undefined-instruction (bit 0). *)
Definition usage_div_undef : scb := mk_scb 0 0x02010000 0 0.

(** The usage-fault block with UFSR = 0x0100: unaligned access (bit 8). *)
Definition usage_unaligned_block : scb := mk_scb 0 0x01000000 0 0.

(** ** The routines that store, and what each routine accesses *)

(** Every routine of scb.h that stores. *)
Inductive writer : Type :=
| WHardFaultAllFaultsReset
| WMemFaultMmfarReset | WMemFaultAllFaultsReset
| WBusFaultBfarReset | WBusFaultAllFaultsReset
| WUsageFaultAllFaultsReset.

Definition write_routine (w : writer) : Mmio unit :=
  match w with
  | WHardFaultAllFaultsReset => _ <- _ScbHardFaultAllFaultsReset ;; ret tt
  | WMemFaultMmfarReset => _ScbMemFaultMmfarReset
  | WMemFaultAllFaultsReset => _ScbMemFaultAllFaultsReset
  | WBusFaultBfarReset => _ScbBusFaultBfarReset
  | WBusFaultAllFaultsReset => _ScbBusFaultAllFaultsReset
  | WUsageFaultAllFaultsReset => _ScbUsageFaultAllFaultsReset
  end.

(** The storage unit that a storing routine names. *)
Definition writer_reg (w : writer) : reg :=
  match w with
  | WHardFaultAllFaultsReset => HFSR
  | WMemFaultMmfarReset | WMemFaultAllFaultsReset => MMFSR
  | WBusFaultBfarReset | WBusFaultAllFaultsReset => BFSR
  | WUsageFaultAllFaultsReset => UFSR
  end.

(** The storage unit that a reading routine names. *)
Definition reader_reg (r : reader) : reg :=
  match r with
  | RFlag f => f_reg (field_of f)
  | RIsMemFault => MMFSR
  | RIsBusFault => BFSR
  | RIsUsageFault => UFSR
  | RMemFaultAddr => MMFAR
  | RBusFaultAddr => BFAR
  end.

(** What a reading routine makes of the unit it has loaded: the bit-field
    (under [!!] everywhere but in [_ScbHardFaultIsBusErrOnVectorRead]), the
    [!!] of the whole unit, or the unit itself. *)
Definition decode (r : reader) (v : Z) : Z :=
  match r with
  | RFlag Vecttbl => bf_get (f_pos hfsr_vecttbl) (f_len hfsr_vecttbl) v
  | RFlag f => c_notnot (bf_get (f_pos (field_of f)) (f_len (field_of f)) v)
  | RIsMemFault | RIsBusFault | RIsUsageFault => c_notnot v
  | RMemFaultAddr | RBusFaultAddr => v
  end.

(** The bits of its unit that a storing routine ends up clearing: the mask
    of a view-wide clear, and for the two address invalidations every bit
    but the validity bit. *)
Definition cleared_bits (w : writer) : Z :=
  match w with
  | WHardFaultAllFaultsReset => 0xffff
  | WMemFaultMmfarReset | WBusFaultBfarReset => 0x7f
  | WMemFaultAllFaultsReset | WBusFaultAllFaultsReset => 0xfe
  | WUsageFaultAllFaultsReset => 0xffff
  end.

(** The bits of MMFSR and of BFSR that no predicate reads: 2, 5, 6 and
    5, 6. *)
Definition mmfsr_undecoded : Z := 0x64.
Definition bfsr_undecoded : Z := 0x60.

(** A block with faults of all three configurable views recorded. *)
Definition mixed_block : scb := mk_scb 0x40000002 0x02019293 0x20001000 0x20002000.

(** ** Bit-level facts *)

Section Bits.

Lemma c_notnot_b2z (b : bool) : c_notnot (Z.b2z b) = Z.b2z b.
Proof. destruct b; reflexivity. Qed.

Lemma c_notnot_0_iff (x : Z) : c_notnot x = 0 <-> x = 0.
Proof. unfold c_notnot. destruct (Z.eqb_spec x 0); split; intros; auto; lia. Qed.

Lemma testbit_trunc (w x i : Z) :
  0 <= w -> Z.testbit (trunc w x) i = Z.testbit x i && (i <? w).
Proof.
  intros Hw. unfold trunc. rewrite Z.land_spec.
  destruct (Z.ltb_spec i 0) as [Hi | Hi].
  - rewrite !Z.testbit_neg_r by lia. reflexivity.
  - rewrite Z.testbit_ones_nonneg by lia. reflexivity.
Qed.

Lemma bf_get_bit (p v : Z) :
  0 <= p -> bf_get p 1 v = Z.b2z (Z.testbit v p).
Proof.
  intros Hp. unfold bf_get.
  change (Z.ones 1) with 1.
  rewrite Z.land_ones with (n := 1) by lia.
  rewrite Z.shiftr_div_pow2 by lia.
  rewrite Z.testbit_spec' by lia. reflexivity.
Qed.

Lemma testbit_w1c (old m i : Z) :
  0 <= i -> Z.testbit (w1c old m) i = Z.testbit old i && negb (Z.testbit m i).
Proof.
  intros Hi. unfold w1c. rewrite Z.land_spec, Z.lnot_spec by lia. reflexivity.
Qed.

Lemma testbit_read_reg (r : reg) (s : scb) (i : Z) :
  0 <= i ->
  Z.testbit (read_reg r s) i =
  Z.testbit (word_of r s) (i + lane r) && (i <? width r).
Proof.
  intros Hi. unfold read_reg.
  rewrite testbit_trunc by (destruct r; simpl; lia).
  rewrite Z.shiftr_spec by lia. reflexivity.
Qed.

Lemma same_except_bit_spec (k x y i : Z) :
  same_except_bit k x y = true -> 0 <= i -> i <> k ->
  Z.testbit x i = Z.testbit y i.
Proof.
  unfold same_except_bit. intros H Hi Hk.
  apply Z.eqb_eq in H.
  assert (Hb : Z.testbit (Z.ldiff (Z.lxor x y) (Z.shiftl 1 k)) i = false)
    by (rewrite H; apply Z.testbit_0_l).
  rewrite Z.ldiff_spec, Z.lxor_spec in Hb.
  rewrite Z.shiftl_spec in Hb by lia.
  change 1 with (2 ^ 0) in Hb. rewrite Z.pow2_bits_eqb in Hb by lia.
  destruct (Z.eqb_spec 0 (i - k)); [lia|].
  simpl in Hb. rewrite andb_true_r in Hb. now apply xorb_eq.
Qed.

End Bits.

(** ** What the accesses do to the block *)

Section Semantics.

Lemma field_of_well_placed (fl : flag) : well_placed (field_of fl).
Proof. destruct fl; unfold well_placed; simpl; lia. Qed.

Lemma field_of_status (fl : flag) : is_status (f_reg (field_of fl)) = true.
Proof. destruct fl; reflexivity. Qed.

Lemma result_seq {A B} (c1 : Mmio A) (c2 : Mmio B) (s : scb) :
  result (c1 ;; c2) s = result c2 (after c1 s).
Proof.
  unfold result, after. simpl. destruct (runState c1 s); reflexivity.
Qed.

Lemma after_seq {A B} (c1 : Mmio A) (c2 : Mmio B) (s : scb) :
  after (c1 ;; c2) s = after c2 (after c1 s).
Proof.
  unfold after. simpl. destruct (runState c1 s); reflexivity.
Qed.

Lemma after_store (r : reg) (v : Z) (s : scb) :
  after (store r v) s = write_reg r v s.
Proof. reflexivity. Qed.

Lemma after_store_field (f : field) (x : Z) (s : scb) :
  after (store_field f x) s =
  write_reg (f_reg f) (bf_set (f_pos f) (f_len f) (read_reg (f_reg f) s) x) s.
Proof. reflexivity. Qed.

Lemma result_load_field (f : field) (s : scb) :
  well_placed f -> result (load_field f) s = Z.b2z (bit_of f s).
Proof.
  intros [Hlen Hpos].
  change (result (load_field f) s)
    with (bf_get (f_pos f) (f_len f) (read_reg (f_reg f) s)).
  rewrite Hlen, bf_get_bit, testbit_read_reg by lia.
  unfold bit_of, abs_pos.
  destruct (Z.ltb_spec (f_pos f) (width (f_reg f))); [|lia].
  now rewrite andb_true_r.
Qed.

(** Each predicate returns the bit that its field names, as 0 or 1. *)
Lemma result_predicate (fl : flag) (s : scb) :
  result (predicate fl) s = Z.b2z (bit_of (field_of fl) s).
Proof.
  pose proof (result_load_field (field_of fl) s (field_of_well_placed fl)) as H.
  destruct fl; try exact H;
    match goal with
    | |- result (predicate ?f) _ = _ =>
        change (result (predicate f) s)
          with (c_notnot (result (load_field (field_of f)) s))
    end;
    rewrite H; apply c_notnot_b2z.
Qed.

(** No read changes the block. *)
Lemma after_predicate (fl : flag) (s : scb) : after (predicate fl) s = s.
Proof. destruct fl; reflexivity. Qed.

(** A store to a status register clears, in that register only, the bits
    written as 1. *)
Lemma bit_of_write_reg (r : reg) (v : Z) (f : field) (s : scb) :
  is_status r = true -> is_status (f_reg f) = true -> well_placed f ->
  bit_of f (write_reg r v s) =
  bit_of f s && negb (reg_eqb (f_reg f) r && Z.testbit v (f_pos f)).
Proof.
  destruct f as [fr p l]. unfold well_placed, bit_of, abs_pos.
  cbn [f_reg f_pos f_len]. intros Hr Hfr [_ Hp].
  destruct r; try discriminate Hr; destruct fr; try discriminate Hfr;
    cbn [write_reg word_of hfsr cfsr reg_eqb width lane andb negb] in *;
    rewrite ?andb_true_r; try reflexivity;
    rewrite testbit_w1c by lia;
    rewrite Z.shiftl_spec by lia;
    rewrite testbit_trunc by lia;
    f_equal; f_equal.
  all: try (replace (p + 0 - 0) with p by lia);
       try (replace (p + 8 - 8) with p by lia);
       try (replace (p + 16 - 16) with p by lia).
  all: try (destruct (Z.ltb_spec p 32); [|lia]; now rewrite andb_true_r).
  all: try (destruct (Z.ltb_spec p 8); [|lia]; now rewrite andb_true_r).
  all: try (destruct (Z.ltb_spec p 16); [|lia]; now rewrite andb_true_r).
  all: try (rewrite Z.testbit_neg_r by lia; reflexivity).
  all: match goal with
       | |- ?x && negb (?t && (?a <? ?b)) = ?x =>
           replace (t && (a <? b)) with false; [apply andb_true_r|];
           symmetry;
           first [ rewrite Z.testbit_neg_r by lia; reflexivity
                 | destruct (Z.ltb_spec a b); [lia|]; apply andb_false_r ]
       end.
Qed.

Lemma trunc_range (w v : Z) : 0 <= w -> 0 <= trunc w v < 2 ^ w.
Proof.
  intros Hw. unfold trunc. rewrite Z.land_ones by lia.
  apply Z.mod_pos_bound. apply Z.pow_pos_nonneg; lia.
Qed.

Lemma w1c_range (old m : Z) : word32 old -> word32 (w1c old m).
Proof.
  unfold word32, w1c. intros Ho.
  assert (Hlow : Z.land old (Z.ones 32) = old)
    by (rewrite Z.land_ones by lia; now apply Z.mod_small).
  assert (E : Z.land old (Z.lnot m) =
              Z.land (Z.land old (Z.lnot m)) (Z.ones 32)).
  { rewrite <- Z.land_assoc, (Z.land_comm (Z.lnot m)), Z.land_assoc.
    now rewrite Hlow. }
  rewrite E, Z.land_ones by lia. apply Z.mod_pos_bound. lia.
Qed.

(** Stores keep the four registers 32-bit words. *)
Lemma write_reg_wf (r : reg) (v : Z) (s : scb) : wf s -> wf (write_reg r v s).
Proof.
  intros (Hh & Hc & Hm & Hb).
  pose proof (trunc_range 32 v ltac:(lia)) as Ht.
  destruct r; unfold wf; cbn [write_reg hfsr cfsr mmfar bfar width lane] in *;
    rewrite ?Z.shiftl_0_r; repeat split;
    try apply w1c_range; try apply Hh; try apply Hc; try apply Hm;
    try apply Hb; try apply Ht; try assumption.
Qed.

Lemma store_wf (r : reg) (v : Z) (s : scb) : wf s -> wf (after (store r v) s).
Proof. apply write_reg_wf. Qed.

Lemma store_field_wf (f : field) (x : Z) (s : scb) :
  wf s -> wf (after (store_field f x) s).
Proof. rewrite after_store_field. apply write_reg_wf. Qed.

End Semantics.

(** ** The clearing routines *)

Section Clearing.

Lemma after_reset_all (v : view) (s : scb) :
  after (reset_all v) s = write_reg (status_reg v) (reset_mask v) s.
Proof. destruct v; reflexivity. Qed.

Lemma field_of_reg (fl : flag) : f_reg (field_of fl) = status_reg (view_of fl).
Proof. destruct fl; reflexivity. Qed.

Lemma reg_eqb_refl (r : reg) : reg_eqb r r = true.
Proof. destruct r; reflexivity. Qed.

Lemma status_reg_status (v : view) : is_status (status_reg v) = true.
Proof. destruct v; reflexivity. Qed.

(** After the clear of its view a flag reads 0 when the mask covers it and
    reads what it read before when the mask does not. *)
Lemma reset_all_then_predicate (fl : flag) (s : scb) :
  result (reset_all (view_of fl) ;; predicate fl) s =
  if covered_by_reset fl then 0 else result (predicate fl) s.
Proof.
  rewrite result_seq, !result_predicate, after_reset_all.
  rewrite bit_of_write_reg
    by auto using status_reg_status, field_of_status, field_of_well_placed.
  rewrite field_of_reg, reg_eqb_refl. unfold covered_by_reset. simpl andb.
  destruct (Z.testbit _ (f_pos _)); simpl.
  - now rewrite andb_false_r.
  - now rewrite andb_true_r.
Qed.

(** The clear of one view leaves the flags of the other views alone. *)
Lemma reset_all_other_view (v : view) (fl : flag) (s : scb) :
  view_of fl <> v ->
  result (reset_all v ;; predicate fl) s = result (predicate fl) s.
Proof.
  intros Hv.
  rewrite result_seq, !result_predicate, after_reset_all.
  rewrite bit_of_write_reg
    by auto using status_reg_status, field_of_status, field_of_well_placed.
  rewrite field_of_reg.
  replace (reg_eqb (status_reg (view_of fl)) (status_reg v)) with false
    by (destruct fl, v; simpl in *; congruence).
  simpl. now rewrite andb_true_r.
Qed.

Lemma testbit_bf_set_0 (p v i : Z) :
  0 <= p -> 0 <= i ->
  Z.testbit (bf_set p 1 v 0) i = Z.testbit v i && negb (i =? p).
Proof.
  intros Hp Hi. unfold bf_set.
  rewrite Z.land_0_l, Z.shiftl_0_l, Z.lor_0_r.
  rewrite Z.land_spec, Z.lnot_spec, Z.shiftl_spec by lia.
  change (Z.ones 1) with (2 ^ 0). rewrite Z.pow2_bits_eqb by lia.
  f_equal. f_equal.
  destruct (Z.eqb_spec 0 (i - p)), (Z.eqb_spec i p); auto; lia.
Qed.

(** Assigning 0 to a single-bit field of a write-one-to-clear register
    stores back every other bit that was read as 1, which clears it, and
    stores 0 to the field itself, which has no effect on it. *)
Lemma bit_of_store_field_0 (f g : field) (s : scb) :
  is_status (f_reg f) = true -> is_status (f_reg g) = true ->
  well_placed f -> well_placed g ->
  bit_of g (after (store_field f 0) s) =
  bit_of g s && (negb (reg_eqb (f_reg g) (f_reg f)) || (f_pos g =? f_pos f)).
Proof.
  intros Hf Hg Wf Wg.
  rewrite after_store_field, bit_of_write_reg by assumption.
  destruct (reg_eqb (f_reg g) (f_reg f)) eqn:E; [|reflexivity].
  assert (Er : f_reg g = f_reg f)
    by (destruct (f_reg g), (f_reg f); simpl in E; congruence).
  destruct Wf as [Lf Pf], Wg as [Lg Pg].
  rewrite Lf, testbit_bf_set_0, testbit_read_reg by lia.
  simpl.
  destruct (Z.ltb_spec (f_pos g) (width (f_reg f))) as [_|Hge];
    [|rewrite Er in Pg; lia].
  rewrite andb_true_r.
  unfold bit_of, abs_pos. rewrite Er.
  destruct (Z.testbit _ _), (f_pos g =? f_pos f); reflexivity.
Qed.

Lemma store_field_0_then_predicate (f g : flag) (s : scb) :
  result (store_field (field_of f) 0 ;; predicate g) s =
  if negb (reg_eqb (f_reg (field_of g)) (f_reg (field_of f)))
     || (f_pos (field_of g) =? f_pos (field_of f))
  then result (predicate g) s else 0.
Proof.
  rewrite result_seq, !result_predicate.
  rewrite bit_of_store_field_0
    by auto using field_of_status, field_of_well_placed.
  destruct (negb _ || _).
  - now rewrite andb_true_r.
  - now rewrite andb_false_r.
Qed.

End Clearing.

(** ** Properties of the view-wide clears *)

(** The flags that the clear of their own view does not write a 1 to are the
    two at bit 0 of MMFSR and of BFSR; the masks 0xfe leave that bit out. *)
Lemma covered_by_reset_cases (fl : flag) :
  covered_by_reset fl =
  match fl with
  | Iaccviol | Ibuserr => false
  | _ => true
  end.
Proof. destruct fl; reflexivity. Qed.

(** C1 (fails on the code): after the clear of its view, every flag of the
    view reads false except the instruction-access-violation flag of the
    memory view and the instruction-bus-error flag of the bus view, which
    read what they read before the clear.  Started from MMFSR = 0x01,
    [_ScbMemFaultAllFaultsReset] leaves
    [_ScbMemFaultIsInstrAccessViolation] returning 1; started from
    BFSR = 0x01, [_ScbBusFaultAllFaultsReset] leaves
    [_ScbBusFaultIsInstrBusErr] returning 1.  Every flag of the usage view
    reads false after [_ScbUsageFaultAllFaultsReset]. *)
Theorem reset_all_keeps_bit0_flags :
  (forall (fl : flag) (s : scb),
     result (reset_all (view_of fl) ;; predicate fl) s =
     match fl with
     | Iaccviol | Ibuserr => result (predicate fl) s
     | _ => 0
     end)
  /\ after _ScbMemFaultAllFaultsReset (mk_scb 0 0x00000001 0 0)
     = mk_scb 0 0x00000001 0 0
  /\ result (_ScbMemFaultAllFaultsReset ;; _ScbMemFaultIsInstrAccessViolation)
            (mk_scb 0 0x00000001 0 0) = 1
  /\ after _ScbBusFaultAllFaultsReset (mk_scb 0 0x00000100 0 0)
     = mk_scb 0 0x00000100 0 0
  /\ result (_ScbBusFaultAllFaultsReset ;; _ScbBusFaultIsInstrBusErr)
            (mk_scb 0 0x00000100 0 0) = 1.
Proof.
  split; [|repeat split].
  intros fl s. rewrite reset_all_then_predicate, covered_by_reset_cases.
  destruct fl; reflexivity.
Qed.

(** C10: after [_ScbMemFaultAllFaultsReset], [_ScbMemFaultIsMmfarValid]
    returns false, and after [_ScbBusFaultAllFaultsReset],
    [_ScbBusFaultIsBfarValid] returns false, from every register state: the
    mask 0xfe has bit 7, the validity flag, set. *)
Theorem reset_all_invalidates_address (s : scb) :
  result (_ScbMemFaultAllFaultsReset ;; _ScbMemFaultIsMmfarValid) s = 0
  /\ result (_ScbBusFaultAllFaultsReset ;; _ScbBusFaultIsBfarValid) s = 0.
Proof.
  split.
  - exact (reset_all_then_predicate Mmarvalid s).
  - exact (reset_all_then_predicate Bfarvalid s).
Qed.

(** C6: when the divide-by-zero and undefined-instruction flags are both
    set, after [_ScbUsageFaultAllFaultsReset] both
    [_ScbUsageFaultIsDivByZero] and [_ScbUsageFaultIsUndefinedInstr] return
    false. *)
Theorem usage_reset_clears_divbyzero_undefinstr (s : scb) :
  result _ScbUsageFaultIsDivByZero s = 1 ->
  result _ScbUsageFaultIsUndefinedInstr s = 1 ->
  result (_ScbUsageFaultAllFaultsReset ;; _ScbUsageFaultIsDivByZero) s = 0
  /\ result (_ScbUsageFaultAllFaultsReset ;; _ScbUsageFaultIsUndefinedInstr) s = 0.
Proof.
  intros _ _. split.
  - exact (reset_all_then_predicate Divbyzero s).
  - exact (reset_all_then_predicate Undefinstr s).
Qed.

Lemma usage_reset_clears_divbyzero_undefinstr_witness :
  result _ScbUsageFaultIsDivByZero usage_div_undef = 1
  /\ result _ScbUsageFaultIsUndefinedInstr usage_div_undef = 1
  /\ result (_ScbUsageFaultAllFaultsReset ;; _ScbUsageFaultIsDivByZero)
            usage_div_undef = 0
  /\ result (_ScbUsageFaultAllFaultsReset ;; _ScbUsageFaultIsUndefinedInstr)
            usage_div_undef = 0.
Proof.
  split; [reflexivity|]. split; [reflexivity|].
  apply (usage_reset_clears_divbyzero_undefinstr usage_div_undef); reflexivity.
Defined.

(** C3 (fails on the code): [_ScbHardFaultAllFaultsReset] writes 0xffff to
    the 32-bit HFSR, so it clears bits 0..15 and leaves bits 16..31 as they
    were.  After the call [_ScbHardFaultIsBusErrOnVectorRead] returns
    false, but started from HFSR = 0x40000000 (FORCED, bit 30) the register
    still holds 0x40000000. *)
Theorem hard_reset_leaves_upper_half :
  (forall s : scb,
     result (_ScbHardFaultAllFaultsReset ;; _ScbHardFaultIsBusErrOnVectorRead) s = 0)
  /\ (forall s : scb,
        hfsr (after _ScbHardFaultAllFaultsReset s) =
        Z.land (hfsr s) (Z.lnot 0xffff))
  /\ read_reg HFSR (after _ScbHardFaultAllFaultsReset (mk_scb 0x40000000 0 0 0))
     = 0x40000000
  /\ bit_of hfsr_forced
       (after _ScbHardFaultAllFaultsReset (mk_scb 0x40000000 0 0 0)) = true.
Proof.
  split; [|split; [|split]]; try reflexivity.
  intros s.
  change (result (reset_all (view_of Vecttbl) ;; predicate Vecttbl) s = 0).
  now rewrite reset_all_then_predicate.
Qed.

(** ** Properties of the address invalidation *)

(** C2 (fails on the code): [_ScbMemFaultMmfarReset] and
    [_ScbBusFaultBfarReset] assign 0 to the validity bit-field of a
    write-one-to-clear register.  The byte stored back has 0 in the validity
    bit, which leaves that flag as it was, and 1 in every cause bit that was
    set, which clears it.  Started from MMFSR = 0x90 (stacking and validity),
    after [_ScbMemFaultMmfarReset] [_ScbMemFaultIsStacking] returns 0
    where it returned 1, and [_ScbMemFaultIsMmfarValid] still returns 1;
    likewise for the bus view from BFSR = 0x90. *)
Theorem address_reset_clears_causes_instead :
  (forall (fl : flag) (s : scb),
     result (_ScbMemFaultMmfarReset ;; predicate fl) s =
     match fl with
     | Mstkerr | Munstkerr | Daccviol | Iaccviol => 0
     | _ => result (predicate fl) s
     end)
  /\ (forall (fl : flag) (s : scb),
     result (_ScbBusFaultBfarReset ;; predicate fl) s =
     match fl with
     | Stkerr | Unstkerr | Impreciserr | Preciserr | Ibuserr => 0
     | _ => result (predicate fl) s
     end)
  /\ (let s := mk_scb 0 0x00000090 0x20001000 0 in
      after _ScbMemFaultMmfarReset s = mk_scb 0 0x00000080 0x20001000 0
      /\ result _ScbMemFaultIsStacking s = 1
      /\ result (_ScbMemFaultMmfarReset ;; _ScbMemFaultIsStacking) s = 0
      /\ result (_ScbMemFaultMmfarReset ;; _ScbMemFaultIsMmfarValid) s = 1)
  /\ (let s := mk_scb 0 0x00009000 0 0x20001000 in
      after _ScbBusFaultBfarReset s = mk_scb 0 0x00008000 0 0x20001000
      /\ result _ScbBusFaultIsStacking s = 1
      /\ result (_ScbBusFaultBfarReset ;; _ScbBusFaultIsStacking) s = 0
      /\ result (_ScbBusFaultBfarReset ;; _ScbBusFaultIsBfarValid) s = 1).
Proof.
  split; [|split; [|split; repeat split]].
  - intros fl s.
    change _ScbMemFaultMmfarReset with (store_field (field_of Mmarvalid) 0).
    rewrite store_field_0_then_predicate.
    destruct fl; reflexivity.
  - intros fl s.
    change _ScbBusFaultBfarReset with (store_field (field_of Bfarvalid) 0).
    rewrite store_field_0_then_predicate.
    destruct fl; reflexivity.
Qed.

(** ** Properties of the reads *)

(** C9: every predicate and every address accessor is a pure read: from
    every register state, also one whose validity flags are clear, the call
    leaves the whole register block as it was. *)
Theorem reads_leave_block_unchanged (r : reader) (s : scb) :
  after (read_routine r) s = s.
Proof.
  destruct r as [fl | | | | |]; try reflexivity.
  apply after_predicate.
Qed.

(** C4: in the memory-fault state where exactly the stacking bit and the
    validity bit of MMFSR are set and MMFAR holds 0x20001000,
    [_ScbMemFaultIsStacking] returns true, [_ScbMemFaultIsUnstacking],
    [_ScbMemFaultIsDataAccessViolation] and
    [_ScbMemFaultIsInstrAccessViolation] return false,
    [_ScbMemFaultIsMmfarValid] returns true and [_ScbMemFaultAddrGet]
    returns 0x20001000. *)
Theorem mem_stacking_scenario (s : scb) :
  read_reg MMFSR s =
    Z.lor (field_mask mmfsr_mstkerr) (field_mask mmfsr_mmarvalid) ->
  read_reg MMFAR s = 0x20001000 ->
  result _ScbMemFaultIsStacking s = 1
  /\ result _ScbMemFaultIsUnstacking s = 0
  /\ result _ScbMemFaultIsDataAccessViolation s = 0
  /\ result _ScbMemFaultIsInstrAccessViolation s = 0
  /\ result _ScbMemFaultIsMmfarValid s = 1
  /\ result _ScbMemFaultAddrGet s = 0x20001000.
Proof.
  intros Hsr Har.
  assert (Hp : forall f : field, f_reg f = MMFSR ->
            result (v <- load_field f ;; ret (c_notnot v)) s =
            c_notnot (bf_get (f_pos f) (f_len f) (read_reg MMFSR s))).
  { intros f Hf.
    change (result (v <- load_field f ;; ret (c_notnot v)) s)
      with (c_notnot (bf_get (f_pos f) (f_len f) (read_reg (f_reg f) s))).
    now rewrite Hf. }
  unfold _ScbMemFaultIsStacking, _ScbMemFaultIsUnstacking,
    _ScbMemFaultIsDataAccessViolation, _ScbMemFaultIsInstrAccessViolation,
    _ScbMemFaultIsMmfarValid.
  rewrite !Hp by reflexivity. rewrite Hsr.
  repeat split; try reflexivity.
  exact Har.
Qed.

Lemma mem_stacking_scenario_witness :
  result _ScbMemFaultIsStacking mem_stacking_block = 1
  /\ result _ScbMemFaultIsUnstacking mem_stacking_block = 0
  /\ result _ScbMemFaultIsDataAccessViolation mem_stacking_block = 0
  /\ result _ScbMemFaultIsInstrAccessViolation mem_stacking_block = 0
  /\ result _ScbMemFaultIsMmfarValid mem_stacking_block = 1
  /\ result _ScbMemFaultAddrGet mem_stacking_block = 0x20001000.
Proof.
  apply (mem_stacking_scenario mem_stacking_block); reflexivity.
Defined.

(** C8: the predicates of a view are independent: for two distinct flags A
    and B of the same view and two register states that differ at most in
    the bit of A, the predicate of B returns the same value in both. *)
Theorem predicates_independent (A B : flag) (s1 s2 : scb) :
  view_of A = view_of B -> A <> B ->
  differ_only_in A s1 s2 = true ->
  result (predicate B) s1 = result (predicate B) s2.
Proof.
  intros Hv Hne Hd. rewrite !result_predicate. f_equal.
  unfold differ_only_in in Hd.
  repeat (apply andb_prop in Hd; destruct Hd as [Hd ?]).
  unfold bit_of.
  destruct A, B; try discriminate Hv; try congruence;
    cbn [field_of f_reg hfsr_vecttbl
         mmfsr_iaccviol mmfsr_daccviol mmfsr_munstkerr mmfsr_mstkerr
         mmfsr_mmarvalid bfsr_ibuserr bfsr_preciserr bfsr_impreciserr
         bfsr_unstkerr bfsr_stkerr bfsr_bfarvalid ufsr_undefinstr
         ufsr_invstate ufsr_invpc ufsr_nocp ufsr_unaligned ufsr_divbyzero
         word_of] in *;
    apply andb_prop in Hd; destruct Hd as [_ Hd];
    apply (same_except_bit_spec _ _ _ _ Hd); vm_compute; congruence.
Qed.

Lemma predicates_independent_witness :
  result (predicate Daccviol) (mk_scb 0 0x00000002 0 0) =
  result (predicate Daccviol) (mk_scb 0 0x00000012 0 0).
Proof.
  apply (predicates_independent Mstkerr Daccviol); [reflexivity | discriminate | reflexivity].
Defined.

(** ** The bus-fault address and the precise flag *)

(** C5, as stated, fails: with BFSR = 0x86 (precise and imprecise errors
    both recorded, address valid) [_ScbBusFaultIsBfarValid] returns true
    while [_ScbBusFaultIsImprecise] returns true as well. *)
Lemma bfar_valid_with_imprecise_error :
  ~ (forall s : scb, wf s ->
       result _ScbBusFaultIsBfarValid s = 1 ->
       result _ScbBusFaultIsPrecise s = 1
       /\ result _ScbBusFaultIsImprecise s = 0).
Proof.
  intros H.
  destruct (H (mk_scb 0 0x00008600 0 0x20001000)) as [_ Himp].
  - unfold wf, word32; simpl; lia.
  - reflexivity.
  - discriminate Himp.
Qed.

(** C5, amended: in the bus-fault state where exactly the imprecise-error
    bit of BFSR is set (the validity bit clear),
    [_ScbBusFaultIsImprecise] returns true and [_ScbBusFaultIsBfarValid]
    returns false; and in every state [_ScbBusFaultIsBfarValid] returns
    bit 7 of BFSR, whatever the precise and imprecise bits are. *)
Theorem bus_imprecise_scenario (s : scb) :
  read_reg BFSR s = field_mask bfsr_impreciserr ->
  result _ScbBusFaultIsImprecise s = 1
  /\ result _ScbBusFaultIsBfarValid s = 0
  /\ (forall s' : scb,
        result _ScbBusFaultIsBfarValid s' =
        Z.b2z (Z.testbit (read_reg BFSR s') 7)).
Proof.
  intros Hsr. split; [|split].
  - change (result _ScbBusFaultIsImprecise s)
      with (c_notnot (bf_get 2 1 (read_reg BFSR s))).
    now rewrite Hsr.
  - change (result _ScbBusFaultIsBfarValid s)
      with (c_notnot (bf_get 7 1 (read_reg BFSR s))).
    now rewrite Hsr.
  - intros s'.
    change (result _ScbBusFaultIsBfarValid s')
      with (c_notnot (bf_get 7 1 (read_reg BFSR s'))).
    rewrite bf_get_bit by lia. apply c_notnot_b2z.
Qed.

Lemma bus_imprecise_scenario_witness :
  result _ScbBusFaultIsImprecise bus_imprecise_block = 1
  /\ result _ScbBusFaultIsBfarValid bus_imprecise_block = 0
  /\ (forall s' : scb,
        result _ScbBusFaultIsBfarValid s' =
        Z.b2z (Z.testbit (read_reg BFSR s') 7)).
Proof.
  apply (bus_imprecise_scenario bus_imprecise_block); reflexivity.
Defined.

(** ** The usage-fault aggregate *)

Section UsageAggregate.

Lemma land_pow2 (v k : Z) :
  0 <= k -> Z.land v (2 ^ k) = if Z.testbit v k then 2 ^ k else 0.
Proof.
  intros Hk. apply Z.bits_inj'. intros n Hn.
  rewrite Z.land_spec, Z.pow2_bits_eqb by lia.
  destruct (Z.eqb_spec k n) as [->|Hne].
  - destruct (Z.testbit v n) eqn:E.
    + rewrite Z.pow2_bits_eqb, Z.eqb_refl by lia. reflexivity.
    + now rewrite Z.testbit_0_l.
  - rewrite andb_false_r.
    destruct (Z.testbit v k).
    + rewrite Z.pow2_bits_eqb by lia. symmetry. now apply Z.eqb_neq.
    + now rewrite Z.testbit_0_l.
Qed.

Lemma result_IsUsageFault (s : scb) :
  result _ScbIsUsageFault s = c_notnot (read_reg UFSR s).
Proof. reflexivity. Qed.

Lemma usage_predicate_bit (fl : flag) (s : scb) :
  view_of fl = Usage ->
  result (predicate fl) s =
  Z.b2z (Z.testbit (read_reg UFSR s) (f_pos (field_of fl))).
Proof.
  intros Hv.
  destruct fl; try discriminate Hv;
    match goal with
    | |- result (predicate ?f) _ = _ =>
        change (result (predicate f) s)
          with (c_notnot (bf_get (f_pos (field_of f)) 1 (read_reg UFSR s)))
    end;
    rewrite bf_get_bit by (simpl; lia); apply c_notnot_b2z.
Qed.

Lemma ufsr_split (s : scb) :
  read_reg UFSR s =
  Z.lor (Z.land (read_reg UFSR s) ufsr_decoded)
        (Z.land (read_reg UFSR s) ufsr_undecoded).
Proof.
  rewrite <- Z.land_lor_distr_r.
  change (Z.lor ufsr_decoded ufsr_undecoded) with (Z.ones 16).
  unfold read_reg, trunc. cbn [width].
  now rewrite <- Z.land_assoc, Z.land_diag.
Qed.

Lemma decoded_zero (v : Z) :
  Z.testbit v 0 = false -> Z.testbit v 1 = false ->
  Z.testbit v 2 = false -> Z.testbit v 3 = false ->
  Z.testbit v 8 = false -> Z.testbit v 9 = false ->
  Z.land v ufsr_decoded = 0.
Proof.
  intros H0 H1 H2 H3 H8 H9.
  change ufsr_decoded
    with (Z.lor (2 ^ 0) (Z.lor (2 ^ 1) (Z.lor (2 ^ 2)
           (Z.lor (2 ^ 3) (Z.lor (2 ^ 8) (2 ^ 9)))))).
  rewrite !Z.land_lor_distr_r, !land_pow2 by lia.
  now rewrite H0, H1, H2, H3, H8, H9.
Qed.

End UsageAggregate.

(** [_ScbIsUsageFault] tests the whole of UFSR: it returns 1 if and only if
    one of the six usage-fault predicates returns 1 or one of the bits of
    UFSR that no predicate reads (4..7, 10..15) is set. *)
Lemma usage_fault_aggregate (s : scb) :
  result _ScbIsUsageFault s = 1 <->
  (exists fl : flag, view_of fl = Usage /\ result (predicate fl) s = 1)
  \/ Z.land (read_reg UFSR s) ufsr_undecoded <> 0.
Proof.
  rewrite result_IsUsageFault.
  assert (Hnz : c_notnot (read_reg UFSR s) = 1 <-> read_reg UFSR s <> 0).
  { unfold c_notnot. destruct (Z.eqb_spec (read_reg UFSR s) 0); split;
      intros; try lia; congruence. }
  rewrite Hnz. clear Hnz. split.
  - intros Hne.
    destruct (Z.eq_dec (Z.land (read_reg UFSR s) ufsr_undecoded) 0) as [Hu|Hu];
      [left | now right].
    assert (Hd : Z.land (read_reg UFSR s) ufsr_decoded <> 0).
    { intros Hd. apply Hne. rewrite ufsr_split, Hd, Hu. reflexivity. }
    destruct (Z.testbit (read_reg UFSR s) 0) eqn:E0;
      [exists Undefinstr; split; [reflexivity|];
       rewrite usage_predicate_bit by reflexivity; exact (f_equal Z.b2z E0)|].
    destruct (Z.testbit (read_reg UFSR s) 1) eqn:E1;
      [exists Invstate; split; [reflexivity|];
       rewrite usage_predicate_bit by reflexivity; exact (f_equal Z.b2z E1)|].
    destruct (Z.testbit (read_reg UFSR s) 2) eqn:E2;
      [exists Invpc; split; [reflexivity|];
       rewrite usage_predicate_bit by reflexivity; exact (f_equal Z.b2z E2)|].
    destruct (Z.testbit (read_reg UFSR s) 3) eqn:E3;
      [exists Nocp; split; [reflexivity|];
       rewrite usage_predicate_bit by reflexivity; exact (f_equal Z.b2z E3)|].
    destruct (Z.testbit (read_reg UFSR s) 8) eqn:E8;
      [exists Unaligned; split; [reflexivity|];
       rewrite usage_predicate_bit by reflexivity; exact (f_equal Z.b2z E8)|].
    destruct (Z.testbit (read_reg UFSR s) 9) eqn:E9;
      [exists Divbyzero; split; [reflexivity|];
       rewrite usage_predicate_bit by reflexivity; exact (f_equal Z.b2z E9)|].
    exfalso. apply Hd. now apply decoded_zero.
  - intros [[fl [Hv Hr]] | Hu] Hz.
    + rewrite usage_predicate_bit, Hz, Z.testbit_0_l in Hr by assumption.
      discriminate Hr.
    + apply Hu. rewrite Hz. reflexivity.
Qed.

(** C7: in every usage-fault register state that the core presents (the
    reserved bits 4..7 and 10..15 of UFSR zero), [_ScbIsUsageFault] returns
    true if and only if at least one of the six usage-fault predicates
    [_ScbUsageFaultIsDivByZero], [_ScbUsageFaultIsUnaligned],
    [_ScbUsageFaultIsNoCp], [_ScbUsageFaultIsInvalidPcLoad],
    [_ScbUsageFaultIsInvalidState], [_ScbUsageFaultIsUndefinedInstr]
    returns true. *)
Theorem usage_fault_iff_some_predicate (s : scb) :
  ufsr_reserved_zero s = true ->
  (result _ScbIsUsageFault s = 1 <->
   result _ScbUsageFaultIsDivByZero s = 1
   \/ result _ScbUsageFaultIsUnaligned s = 1
   \/ result _ScbUsageFaultIsNoCp s = 1
   \/ result _ScbUsageFaultIsInvalidPcLoad s = 1
   \/ result _ScbUsageFaultIsInvalidState s = 1
   \/ result _ScbUsageFaultIsUndefinedInstr s = 1).
Proof.
  intros Hres. apply Z.eqb_eq in Hres.
  rewrite usage_fault_aggregate. split.
  - intros [[fl [Hv Hr]] | Hu]; [|contradiction].
    destruct fl; try discriminate Hv; cbn [predicate] in Hr; tauto.
  - intros H. left.
    destruct H as [H|[H|[H|[H|[H|H]]]]].
    + exists Divbyzero. now split.
    + exists Unaligned. now split.
    + exists Nocp. now split.
    + exists Invpc. now split.
    + exists Invstate. now split.
    + exists Undefinstr. now split.
Qed.

Lemma usage_fault_iff_some_predicate_witness :
  result _ScbIsUsageFault usage_unaligned_block = 1 <->
  result _ScbUsageFaultIsDivByZero usage_unaligned_block = 1
  \/ result _ScbUsageFaultIsUnaligned usage_unaligned_block = 1
  \/ result _ScbUsageFaultIsNoCp usage_unaligned_block = 1
  \/ result _ScbUsageFaultIsInvalidPcLoad usage_unaligned_block = 1
  \/ result _ScbUsageFaultIsInvalidState usage_unaligned_block = 1
  \/ result _ScbUsageFaultIsUndefinedInstr usage_unaligned_block = 1.
Proof.
  apply (usage_fault_iff_some_predicate usage_unaligned_block). reflexivity.
Defined.

(** ** The routines as maps on the storage units *)

Section Units.

Lemma result_read_routine (r : reader) (s : scb) :
  result (read_routine r) s = decode r (read_reg (reader_reg r) s).
Proof. destruct r as [fl | | | | |]; [destruct fl|..]; reflexivity. Qed.

Lemma writer_reg_status (w : writer) : is_status (writer_reg w) = true.
Proof. destruct w; reflexivity. Qed.

(** A store to one unit is not seen by a load from another. *)
Lemma read_reg_write_reg_other (r r' : reg) (v : Z) (s : scb) :
  r <> r' -> read_reg r' (write_reg r v s) = read_reg r' s.
Proof.
  intros Hne. unfold read_reg. apply Z.bits_inj'. intros i Hi.
  rewrite !testbit_trunc by (destruct r'; simpl; lia).
  rewrite !Z.shiftr_spec by lia.
  destruct (Z.ltb_spec i (width r')) as [Hlt|Hge];
    [rewrite !andb_true_r | now rewrite !andb_false_r].
  destruct r, r'; try congruence;
    cbn [write_reg word_of hfsr cfsr mmfar bfar width lane] in *;
    try reflexivity;
    rewrite testbit_w1c by lia;
    rewrite Z.shiftl_spec by lia;
    rewrite testbit_trunc by lia;
    match goal with
    | |- ?x && negb (?t && (?a <? ?b)) = ?x =>
        replace (t && (a <? b)) with false; [apply andb_true_r|];
        symmetry;
        first [ rewrite Z.testbit_neg_r by lia; reflexivity
              | destruct (Z.ltb_spec a b); [lia|]; apply andb_false_r ]
    end.
Qed.

(** A store to a write-one-to-clear unit, seen by a load from the same
    unit. *)
Lemma read_reg_write_reg_same (r : reg) (v : Z) (s : scb) :
  is_status r = true ->
  read_reg r (write_reg r v s) = w1c (read_reg r s) v.
Proof.
  intros Hst. unfold read_reg. apply Z.bits_inj'. intros i Hi.
  rewrite testbit_w1c by lia.
  rewrite !testbit_trunc by (destruct r; simpl; lia).
  rewrite !Z.shiftr_spec by lia.
  destruct (Z.ltb_spec i (width r)) as [Hlt|Hge];
    [rewrite !andb_true_r | now rewrite !andb_false_r].
  destruct r; try discriminate Hst;
    cbn [write_reg word_of hfsr cfsr width lane] in *;
    rewrite testbit_w1c by lia;
    rewrite Z.shiftl_spec by lia;
    rewrite testbit_trunc by lia;
    match goal with
    | |- context [Z.testbit v ?j] => replace j with i by lia
    end;
    match goal with
    | |- context [?a <? ?b] => destruct (Z.ltb_spec a b); [|lia]
    end;
    now rewrite andb_true_r.
Qed.

(** Assigning 0 to bit 7 of a write-one-to-clear byte has the effect of
    storing 0x7f to it. *)
Lemma w1c_assign_bit7 (c l : Z) :
  0 <= l ->
  w1c c (Z.shiftl (trunc 8 (bf_set 7 1 (trunc 8 (Z.shiftr c l)) 0)) l) =
  w1c c (Z.shiftl (trunc 8 0x7f) l).
Proof.
  intros Hl. apply Z.bits_inj'. intros i Hi.
  rewrite !testbit_w1c, !Z.shiftl_spec, !testbit_trunc by lia.
  destruct (Z.ltb_spec (i - l) 0) as [Hneg|Hpos].
  - rewrite (Z.testbit_neg_r (bf_set _ _ _ _) (i - l)) by lia.
    now rewrite (Z.testbit_neg_r 0x7f (i - l)) by lia.
  - rewrite testbit_bf_set_0, testbit_trunc, Z.shiftr_spec by lia.
    replace (i - l + l) with i by lia.
    change 0x7f with (Z.ones 7). rewrite Z.testbit_ones_nonneg by lia.
    destruct (Z.testbit c i), (Z.ltb_spec (i - l) 8), (Z.eqb_spec (i - l) 7),
      (Z.ltb_spec (i - l) 7); simpl; try reflexivity; lia.
Qed.

(** Every storing routine has the effect of one store of a fixed mask to
    its unit. *)
Lemma after_write_routine (w : writer) (s : scb) :
  after (write_routine w) s = write_reg (writer_reg w) (cleared_bits w) s.
Proof.
  destruct w; try reflexivity.
  - change (after (write_routine WMemFaultMmfarReset) s)
      with (after (store_field mmfsr_mmarvalid 0) s).
    rewrite after_store_field.
    cbn [write_reg f_reg f_pos f_len mmfsr_mmarvalid writer_reg cleared_bits
         width lane].
    unfold read_reg. cbn [width lane word_of].
    now rewrite w1c_assign_bit7 by lia.
  - change (after (write_routine WBusFaultBfarReset) s)
      with (after (store_field bfsr_bfarvalid 0) s).
    rewrite after_store_field.
    cbn [write_reg f_reg f_pos f_len bfsr_bfarvalid writer_reg cleared_bits
         width lane].
    unfold read_reg. cbn [width lane word_of].
    now rewrite w1c_assign_bit7 by lia.
Qed.

Lemma result_write_then_read (w : writer) (r : reader) (s : scb) :
  result (write_routine w ;; read_routine r) s =
  decode r (read_reg (reader_reg r)
              (write_reg (writer_reg w) (cleared_bits w) s)).
Proof.
  now rewrite result_seq, result_read_routine, after_write_routine.
Qed.

(** Two stores to write-one-to-clear units can be swapped, and a store
    repeated changes nothing more. *)
Lemma write_reg_comm (r1 r2 : reg) (v1 v2 : Z) (s : scb) :
  is_status r1 = true -> is_status r2 = true ->
  write_reg r1 v1 (write_reg r2 v2 s) = write_reg r2 v2 (write_reg r1 v1 s).
Proof.
  intros H1 H2. unfold w1c, write_reg.
  destruct r1; try discriminate H1; destruct r2; try discriminate H2;
    cbn [hfsr cfsr mmfar bfar]; unfold w1c; f_equal;
    rewrite <- !Z.land_assoc; f_equal; apply Z.land_comm.
Qed.

Lemma write_reg_twice (r : reg) (v : Z) (s : scb) :
  is_status r = true ->
  write_reg r v (write_reg r v s) = write_reg r v s.
Proof.
  intros H. unfold write_reg.
  destruct r; try discriminate H;
    cbn [hfsr cfsr mmfar bfar]; unfold w1c; f_equal;
    now rewrite <- Z.land_assoc, Z.land_diag.
Qed.

End Units.


(** ** How the routines compose *)

Section Composition.

Lemma reg_eq_dec (a b : reg) : {a = b} + {a <> b}.
Proof. decide equality. Qed.

Lemma decode_flag_bit (fl : flag) (v : Z) :
  decode (RFlag fl) v = Z.b2z (Z.testbit v (f_pos (field_of fl))).
Proof.
  destruct fl; unfold decode;
    cbn [field_of f_pos f_len hfsr_vecttbl
         mmfsr_iaccviol mmfsr_daccviol mmfsr_munstkerr mmfsr_mstkerr
         mmfsr_mmarvalid bfsr_ibuserr bfsr_preciserr bfsr_impreciserr
         bfsr_unstkerr bfsr_stkerr bfsr_bfarvalid ufsr_undefinstr
         ufsr_invstate ufsr_invpc ufsr_nocp ufsr_unaligned ufsr_divbyzero];
    rewrite bf_get_bit by lia; rewrite ?c_notnot_b2z; reflexivity.
Qed.

Lemma predicate_unit_bit (fl : flag) (s : scb) :
  result (predicate fl) s =
  Z.b2z (Z.testbit (read_reg (f_reg (field_of fl)) s) (f_pos (field_of fl))).
Proof.
  change (predicate fl) with (read_routine (RFlag fl)).
  now rewrite result_read_routine, decode_flag_bit.
Qed.

Lemma w1c_0_l (m : Z) : w1c 0 m = 0.
Proof. apply Z.land_0_l. Qed.

(** Clearing bits of the unit cannot turn a result 0 into something else. *)
Lemma decode_w1c_zero (r : reader) (v m : Z) :
  is_status (reader_reg r) = true ->
  decode r v = 0 -> decode r (w1c v m) = 0.
Proof.
  intros Hst Hz. destruct r as [fl | | | | |]; try discriminate Hst.
  - rewrite decode_flag_bit in *.
    assert (Hp : 0 <= f_pos (field_of fl)) by (destruct fl; simpl; lia).
    rewrite testbit_w1c by exact Hp.
    destruct (Z.testbit v _); [discriminate Hz | reflexivity].
  - cbn [decode] in *. apply (proj1 (c_notnot_0_iff v)) in Hz. subst v.
    now rewrite w1c_0_l.
  - cbn [decode] in *. apply (proj1 (c_notnot_0_iff v)) in Hz. subst v.
    now rewrite w1c_0_l.
  - cbn [decode] in *. apply (proj1 (c_notnot_0_iff v)) in Hz. subst v.
    now rewrite w1c_0_l.
Qed.

Lemma decode_status_0 (r : reader) :
  is_status (reader_reg r) = true -> decode r 0 = 0.
Proof.
  intros Hst. destruct r as [fl | | | | |]; try discriminate Hst;
    [destruct fl|..]; reflexivity.
Qed.

Lemma read_reg_range (r : reg) (s : scb) :
  0 <= read_reg r s < 2 ^ width r.
Proof. apply trunc_range. destruct r; simpl; lia. Qed.

Lemma nonzero_has_bit (w v : Z) :
  0 <= v < 2 ^ w -> v <> 0 ->
  exists i, 0 <= i < w /\ Z.testbit v i = true.
Proof.
  intros Hr Hne. exists (Z.log2 v).
  assert (Hpos : 0 < v) by lia.
  repeat split.
  - apply Z.log2_nonneg.
  - apply Z.log2_lt_pow2; lia.
  - now apply Z.bit_log2.
Qed.

(** After both clearing stores 0x7f and 0xfe, in either order, a byte-wide
    unit reads 0. *)
Lemma w1c_both_masks (x : Z) :
  w1c (w1c (trunc 8 x) 0x7f) 0xfe = 0 /\ w1c (w1c (trunc 8 x) 0xfe) 0x7f = 0.
Proof.
  unfold w1c, trunc. split.
  - rewrite <- !Z.land_assoc.
    change (Z.land (Z.ones 8) (Z.land (Z.lnot 0x7f) (Z.lnot 0xfe))) with 0.
    apply Z.land_0_r.
  - rewrite <- !Z.land_assoc.
    change (Z.land (Z.ones 8) (Z.land (Z.lnot 0xfe) (Z.lnot 0x7f))) with 0.
    apply Z.land_0_r.
Qed.

End Composition.

(** A store by one routine is not seen by the routines that read another
    storage unit: a view-wide clear or an address invalidation leaves every
    predicate of the other views, their aggregate predicates and both fault
    addresses returning what they returned before. *)
Theorem store_leaves_other_units (w : writer) (r : reader) (s : scb) :
  writer_reg w <> reader_reg r ->
  result (write_routine w ;; read_routine r) s = result (read_routine r) s.
Proof.
  intros Hne.
  rewrite result_write_then_read, read_reg_write_reg_other by assumption.
  symmetry. apply result_read_routine.
Qed.

Lemma store_leaves_other_units_witness :
  result (write_routine WMemFaultAllFaultsReset ;; read_routine (RFlag Stkerr))
         mixed_block
  = result (read_routine (RFlag Stkerr)) mixed_block.
Proof.
  apply (store_leaves_other_units WMemFaultAllFaultsReset (RFlag Stkerr)).
  discriminate.
Defined.

(** No storing routine of scb.h changes a fault address: after any of the
    six, also after the two address invalidations,
    [_ScbMemFaultAddrGet] and [_ScbBusFaultAddrGet] return what they
    returned before. *)
Theorem stores_keep_fault_addresses (w : writer) (s : scb) :
  result (write_routine w ;; _ScbMemFaultAddrGet) s
  = result _ScbMemFaultAddrGet s
  /\ result (write_routine w ;; _ScbBusFaultAddrGet) s
     = result _ScbBusFaultAddrGet s.
Proof.
  split.
  - change _ScbMemFaultAddrGet with (read_routine RMemFaultAddr).
    rewrite result_write_then_read, read_reg_write_reg_other
      by (destruct w; discriminate).
    symmetry. apply result_read_routine.
  - change _ScbBusFaultAddrGet with (read_routine RBusFaultAddr).
    rewrite result_write_then_read, read_reg_write_reg_other
      by (destruct w; discriminate).
    symmetry. apply result_read_routine.
Qed.

(** Calling a storing routine a second time changes nothing more: the block
    after two calls in a row is the block after one. *)
Theorem stores_idempotent (w : writer) (s : scb) :
  after (write_routine w ;; write_routine w) s = after (write_routine w) s.
Proof.
  rewrite after_seq, !after_write_routine.
  apply write_reg_twice, writer_reg_status.
Qed.

(** Any two storing routines can be called in either order: the block after
    both is the same. *)
Theorem stores_commute (w1 w2 : writer) (s : scb) :
  after (write_routine w1 ;; write_routine w2) s
  = after (write_routine w2 ;; write_routine w1) s.
Proof.
  rewrite !after_seq, !after_write_routine.
  apply write_reg_comm; apply writer_reg_status.
Qed.

(** No storing routine can raise a flag: a reading routine that returned 0
    before the call returns 0 after it. *)
Theorem stores_never_raise (w : writer) (r : reader) (s : scb) :
  result (read_routine r) s = 0 ->
  result (write_routine w ;; read_routine r) s = 0.
Proof.
  intros Hz. rewrite result_write_then_read.
  rewrite result_read_routine in Hz.
  destruct (reg_eq_dec (writer_reg w) (reader_reg r)) as [He|Hne].
  - rewrite He, read_reg_write_reg_same
      by (rewrite <- He; apply writer_reg_status).
    apply decode_w1c_zero; [rewrite <- He; apply writer_reg_status | exact Hz].
  - now rewrite read_reg_write_reg_other.
Qed.

Lemma stores_never_raise_witness :
  result (write_routine WUsageFaultAllFaultsReset ;;
          read_routine (RFlag Unaligned)) mixed_block = 0.
Proof.
  apply (stores_never_raise WUsageFaultAllFaultsReset (RFlag Unaligned)).
  reflexivity.
Defined.

(** The two different storing routines of one storage unit (the address
    invalidation and the view-wide clear of the memory view, or of the bus
    view), called one after the other in either order, clear the unit
    entirely: every routine that reads the unit then returns 0. *)
Theorem invalidate_and_reset_clear_unit (w1 w2 : writer) (r : reader) (s : scb) :
  w1 <> w2 -> writer_reg w1 = writer_reg w2 -> reader_reg r = writer_reg w1 ->
  result (write_routine w1 ;; write_routine w2 ;; read_routine r) s = 0.
Proof.
  intros Hne Hw Hr.
  assert (Hst : is_status (reader_reg r) = true)
    by (rewrite Hr; apply writer_reg_status).
  rewrite result_seq, result_write_then_read, after_write_routine.
  rewrite <- Hw, <- Hr.
  rewrite !read_reg_write_reg_same by assumption.
  assert (Hzero : w1c (w1c (read_reg (reader_reg r) s) (cleared_bits w1))
                      (cleared_bits w2) = 0).
  { remember (reader_reg r) as R eqn:HR. clear HR Hst.
    destruct w1, w2; try congruence; try discriminate Hw;
      cbn [writer_reg] in Hr; subst R;
      unfold read_reg; cbn [cleared_bits width lane];
      apply w1c_both_masks. }
  rewrite Hzero. now apply decode_status_0.
Qed.

Lemma invalidate_and_reset_clear_unit_witness :
  result (write_routine WMemFaultAllFaultsReset ;;
          write_routine WMemFaultMmfarReset ;;
          read_routine RIsMemFault) mixed_block = 0.
Proof.
  apply (invalidate_and_reset_clear_unit
           WMemFaultAllFaultsReset WMemFaultMmfarReset RIsMemFault);
    [discriminate | reflexivity | reflexivity].
Defined.

(** ** What the reading routines return *)

(** Every predicate returns 0 or 1, whatever the registers hold, also
    [_ScbHardFaultIsBusErrOnVectorRead], which returns its bit-field without
    [!!]; the two address routines return a 32-bit value. *)
Theorem read_results_in_range (r : reader) (s : scb) :
  match r with
  | RMemFaultAddr | RBusFaultAddr => 0 <= result (read_routine r) s < 2 ^ 32
  | _ => result (read_routine r) s = 0 \/ result (read_routine r) s = 1
  end.
Proof.
  destruct r as [fl | | | | |].
  - cbn [read_routine]. rewrite result_predicate.
    destruct (bit_of _ _); [right | left]; reflexivity.
  - rewrite result_read_routine. cbn [decode]. unfold c_notnot.
    destruct (_ =? 0); [left | right]; reflexivity.
  - rewrite result_read_routine. cbn [decode]. unfold c_notnot.
    destruct (_ =? 0); [left | right]; reflexivity.
  - rewrite result_read_routine. cbn [decode]. unfold c_notnot.
    destruct (_ =? 0); [left | right]; reflexivity.
  - rewrite result_read_routine. apply (read_reg_range MMFAR).
  - rewrite result_read_routine. apply (read_reg_range BFAR).
Qed.

Section Aggregates.

Lemma c_notnot_1_iff (x : Z) : c_notnot x = 1 <-> x <> 0.
Proof. unfold c_notnot. destruct (Z.eqb_spec x 0); split; intros; lia. Qed.

Lemma predicate_1_nonzero (fl : flag) (s : scb) :
  result (predicate fl) s = 1 -> read_reg (f_reg (field_of fl)) s <> 0.
Proof.
  rewrite predicate_unit_bit. intros H Hz.
  rewrite Hz, Z.testbit_0_l in H. discriminate H.
Qed.

Lemma predicate_1_of_bit (fl : flag) (s : scb) :
  Z.testbit (read_reg (f_reg (field_of fl)) s) (f_pos (field_of fl)) = true ->
  result (predicate fl) s = 1.
Proof. rewrite predicate_unit_bit. now intros ->. Qed.

Lemma land_mask_nonzero (v m i : Z) :
  Z.testbit v i = true -> Z.testbit m i = true -> Z.land v m <> 0.
Proof.
  intros Hv Hm Hz.
  assert (H : Z.testbit (Z.land v m) i = true)
    by (rewrite Z.land_spec, Hv, Hm; reflexivity).
  rewrite Hz, Z.testbit_0_l in H. discriminate H.
Qed.

Lemma land_nonzero_l (v m : Z) : Z.land v m <> 0 -> v <> 0.
Proof. intros H Hz. apply H. rewrite Hz. apply Z.land_0_l. Qed.

End Aggregates.

(** [_ScbIsMemFault] returns 1 exactly when MMFSR is not zero: when one of
    the five memory-fault predicates, [_ScbMemFaultIsMmfarValid] among them,
    returns 1, or one of the bits of MMFSR that no predicate reads (2, 5, 6)
    is set.  So when it returns 0 all five predicates return 0. *)
Theorem mem_fault_aggregate (s : scb) :
  result _ScbIsMemFault s = 1 <->
  (exists fl : flag, view_of fl = Mem /\ result (predicate fl) s = 1)
  \/ Z.land (read_reg MMFSR s) mmfsr_undecoded <> 0.
Proof.
  change (result _ScbIsMemFault s) with (c_notnot (read_reg MMFSR s)).
  rewrite c_notnot_1_iff. split.
  - intros Hne.
    destruct (nonzero_has_bit 8 _ (read_reg_range MMFSR s) Hne) as [i [Hi Hb]].
    assert (Hc : i = 0 \/ i = 1 \/ i = 2 \/ i = 3 \/ i = 4 \/ i = 5 \/ i = 6
                 \/ i = 7) by lia.
    destruct Hc as [->|[->|[->|[->|[->|[->|[->| ->]]]]]]].
    + left. exists Iaccviol. split; [reflexivity|]. now apply predicate_1_of_bit.
    + left. exists Daccviol. split; [reflexivity|]. now apply predicate_1_of_bit.
    + right. now apply (land_mask_nonzero _ _ 2).
    + left. exists Munstkerr. split; [reflexivity|]. now apply predicate_1_of_bit.
    + left. exists Mstkerr. split; [reflexivity|]. now apply predicate_1_of_bit.
    + right. now apply (land_mask_nonzero _ _ 5).
    + right. now apply (land_mask_nonzero _ _ 6).
    + left. exists Mmarvalid. split; [reflexivity|]. now apply predicate_1_of_bit.
  - intros [[fl [Hv Hr]] | Hu].
    + apply predicate_1_nonzero in Hr.
      destruct fl; try discriminate Hv; exact Hr.
    + now apply land_nonzero_l in Hu.
Qed.

(** [_ScbIsBusFault] returns 1 exactly when BFSR is not zero: when one of
    the six bus-fault predicates, [_ScbBusFaultIsBfarValid] among them,
    returns 1, or one of the bits of BFSR that no predicate reads (5, 6) is
    set.  So when it returns 0 all six predicates return 0. *)
Theorem bus_fault_aggregate (s : scb) :
  result _ScbIsBusFault s = 1 <->
  (exists fl : flag, view_of fl = Bus /\ result (predicate fl) s = 1)
  \/ Z.land (read_reg BFSR s) bfsr_undecoded <> 0.
Proof.
  change (result _ScbIsBusFault s) with (c_notnot (read_reg BFSR s)).
  rewrite c_notnot_1_iff. split.
  - intros Hne.
    destruct (nonzero_has_bit 8 _ (read_reg_range BFSR s) Hne) as [i [Hi Hb]].
    assert (Hc : i = 0 \/ i = 1 \/ i = 2 \/ i = 3 \/ i = 4 \/ i = 5 \/ i = 6
                 \/ i = 7) by lia.
    destruct Hc as [->|[->|[->|[->|[->|[->|[->| ->]]]]]]].
    + left. exists Ibuserr. split; [reflexivity|]. now apply predicate_1_of_bit.
    + left. exists Preciserr. split; [reflexivity|]. now apply predicate_1_of_bit.
    + left. exists Impreciserr. split; [reflexivity|]. now apply predicate_1_of_bit.
    + left. exists Unstkerr. split; [reflexivity|]. now apply predicate_1_of_bit.
    + left. exists Stkerr. split; [reflexivity|]. now apply predicate_1_of_bit.
    + right. now apply (land_mask_nonzero _ _ 5).
    + right. now apply (land_mask_nonzero _ _ 6).
    + left. exists Bfarvalid. split; [reflexivity|]. now apply predicate_1_of_bit.
  - intros [[fl [Hv Hr]] | Hu].
    + apply predicate_1_nonzero in Hr.
      destruct fl; try discriminate Hv; exact Hr.
    + now apply land_nonzero_l in Hu.
Qed.

(** After [_ScbUsageFaultAllFaultsReset], [_ScbIsUsageFault] returns 0:
    the mask 0xffff clears the whole of UFSR, the bits that no predicate
    reads included. *)
Theorem usage_reset_clears_aggregate (s : scb) :
  result (_ScbUsageFaultAllFaultsReset ;; _ScbIsUsageFault) s = 0.
Proof.
  change (result (write_routine WUsageFaultAllFaultsReset ;;
                  read_routine RIsUsageFault) s = 0).
  rewrite result_write_then_read.
  cbn [reader_reg writer_reg cleared_bits decode].
  rewrite read_reg_write_reg_same by reflexivity.
  unfold read_reg, w1c, trunc. cbn [width].
  rewrite <- Z.land_assoc.
  change (Z.land (Z.ones 16) (Z.lnot 0xffff)) with 0.
  now rewrite Z.land_0_r.
Qed.

(** After [_ScbMemFaultAllFaultsReset], [_ScbIsMemFault] returns what
    [_ScbMemFaultIsInstrAccessViolation] returned before the call, and after
    [_ScbBusFaultAllFaultsReset], [_ScbIsBusFault] returns what
    [_ScbBusFaultIsInstrBusErr] returned before: of a byte-wide unit the
    mask 0xfe leaves bit 0 and nothing else. *)
Theorem byte_reset_leaves_bit0_in_aggregate (s : scb) :
  result (_ScbMemFaultAllFaultsReset ;; _ScbIsMemFault) s
  = result _ScbMemFaultIsInstrAccessViolation s
  /\ result (_ScbBusFaultAllFaultsReset ;; _ScbIsBusFault) s
     = result _ScbBusFaultIsInstrBusErr s.
Proof.
  assert (H : forall x : Z,
            w1c (trunc 8 x) 0xfe = bf_get 0 1 (trunc 8 x)).
  { intros x. unfold w1c, bf_get, trunc. rewrite Z.shiftr_0_r.
    rewrite <- !Z.land_assoc. reflexivity. }
  split.
  - change (result (write_routine WMemFaultAllFaultsReset ;;
                    read_routine RIsMemFault) s
            = c_notnot (bf_get 0 1 (read_reg MMFSR s))).
    rewrite result_write_then_read.
    cbn [reader_reg writer_reg cleared_bits decode].
    rewrite read_reg_write_reg_same by reflexivity.
    unfold read_reg. cbn [width]. now rewrite H.
  - change (result (write_routine WBusFaultAllFaultsReset ;;
                    read_routine RIsBusFault) s
            = c_notnot (bf_get 0 1 (read_reg BFSR s))).
    rewrite result_write_then_read.
    cbn [reader_reg writer_reg cleared_bits decode].
    rewrite read_reg_write_reg_same by reflexivity.
    unfold read_reg. cbn [width]. now rewrite H.
Qed.
